(** * The chat page of the mini program

    A shallow embedding of [miniprogram/pages/chat/index.js]: the page
    object registered with [Page({...})], its [data] and its handlers
    [onLoad], [onInput] and [sendMsg], together with the two callbacks
    that [sendMsg] hands to [wx.request].  The handlers run on the single
    thread of the UI event loop, so the page is modelled as a state
    machine whose transitions are the handler calls and the settling of
    requests in flight. *)

From Stdlib Require Import ZArith NArith List Bool Ascii String Lia.
From Stdlib Require Import Floats.FloatClass Floats.PrimFloat.
From stdpp Require Import base option list gmap.

Set Warnings "-register-all".
Local Open Scope N_scope.

(** ** JavaScript values *)

Module JS.

(** A JavaScript string is a finite sequence of UTF-16 code units. *)
Abbreviation jsstring := (list N).

(** The ASCII literals of the source, as code units. *)
Definition lit (s : string) : jsstring :=
  map N_of_ascii (list_ascii_of_string s).

(** ECMAScript [WhiteSpace]: TAB, VT, FF, ZWNBSP and the code points of
    general category [Zs]. *)
Definition is_white_space (c : N) : bool :=
  (c =? 0x0009) || (c =? 0x000B) || (c =? 0x000C) || (c =? 0xFEFF)
  || (c =? 0x0020) || (c =? 0x00A0) || (c =? 0x1680)
  || ((0x2000 <=? c) && (c <=? 0x200A))
  || (c =? 0x202F) || (c =? 0x205F) || (c =? 0x3000).

(** ECMAScript [LineTerminator]: LF, CR, LS, PS. *)
Definition is_line_terminator (c : N) : bool :=
  (c =? 0x000A) || (c =? 0x000D) || (c =? 0x2028) || (c =? 0x2029).

(** The code units that [String.prototype.trim] strips. *)
Definition strippable (c : N) : bool :=
  is_white_space c || is_line_terminator c.

Fixpoint trimStart (s : jsstring) : jsstring :=
  match s with
  | [] => []
  | c :: s' => if strippable c then trimStart s' else s
  end.

Definition trimEnd (s : jsstring) : jsstring :=
  rev (trimStart (rev s)).

(** [s.trim()] *)
Definition trim (s : jsstring) : jsstring :=
  trimEnd (trimStart s).

(** [s.slice(n)] for a non-negative [n]: the suffix from index [n]. *)
Definition slice (n : nat) (s : jsstring) : jsstring :=
  drop n s.

(** The values that cross the page's boundary: what storage holds, what a
    JSON response body parses to, what a message carries. *)
Inductive value : Type :=
| VUndefined
| VNull
| VBool (b : bool)
| VNum (x : float)
| VStr (s : jsstring)
| VArr (l : list value)
| VObj (m : gmap jsstring value).

(** ECMAScript [ToBoolean], the test behind [!x] and [if (x)]. *)
Definition ToBoolean (v : value) : bool :=
  match v with
  | VUndefined | VNull => false
  | VBool b => b
  | VNum x =>
      match classify x with
      | PZero | NZero | NaN => false
      | _ => true
      end
  | VStr s => match s with [] => false | _ => true end
  | VArr _ | VObj _ => true
  end.

Inductive error : Type :=
| TypeError      (* property read on undefined or null *)
| StorageError.  (* a synchronous storage call of the platform failed *)

(** Outcome of evaluating a piece of code: a value or a thrown error. *)
Inductive completion (A : Type) : Type :=
| Normal (a : A)
| Throw (e : error).
Arguments Normal {A} a.
Arguments Throw {A} e.

(** [v.answer].  Reading a property of [undefined] or [null] throws; an
    object yields its own property or [undefined]; on every other value
    the name [answer] is neither an index, nor [length], nor found on a
    built-in prototype, so the read yields [undefined]. *)
Definition get_answer (v : value) : completion value :=
  match v with
  | VUndefined | VNull => Throw TypeError
  | VObj m => Normal (default VUndefined (m !! lit "answer"))
  | VBool _ | VNum _ | VStr _ | VArr _ => Normal VUndefined
  end.

End JS.
Export JS.

(** ** The page and the platform around it *)

Inductive Role : Type :=
| user        (* the literal ['user'] *)
| assistant.  (* the literal ['assistant'] *)

(** An element of [data.messages]: [{ role, content }]. *)
Record message : Type := Message { role : Role; content : value }.

(** The page's [data].  [input] holds the [e.detail.value] of the input
    component, a string; [user_id] holds whatever the storage returned or
    the generated string. *)
Module Data.
Record t : Type := Build {
  user_id : value;
  session_id : jsstring;
  messages : list message;
  input : jsstring
}.
End Data.

(** The argument of [wx.request]: [{ url, method, data: { question,
    user_id, session_id }, success, fail }].  The two callbacks are the
    same closures for every request (they capture [this] only) and are
    the definitions [success] and [fail] below. *)
Module Request.
Record t : Type := Build {
  url : jsstring;
  method : jsstring;
  question : jsstring;
  user_id : value;
  session_id : jsstring
}.
End Request.

(** What the [success] callback receives: [res.statusCode], [res.data]. *)
Module Response.
Record t : Type := Build { statusCode : Z; data : value }.
End Response.

(** The page together with the part of the platform it talks to. *)
Record world : Type := World {
  page : Data.t;                       (* [this.data] *)
  entries : gmap jsstring value;       (* durable key-value storage *)
  readable : bool;                     (* the storage layer serves reads *)
  writable : bool;                     (* the storage layer serves writes *)
  writes : list (jsstring * value);    (* log: completed [setStorageSync] calls *)
  pending : list Request.t;            (* requests in flight *)
  sent : list Request.t;               (* log: every [wx.request] call *)
  uncaught : list error                (* log: errors that escaped a handler *)
}.

Definition with_page (f : Data.t → Data.t) (w : world) : world :=
  World (f (page w)) (entries w) (readable w) (writable w) (writes w)
        (pending w) (sent w) (uncaught w).

Definition with_write (key : jsstring) (v : value) (w : world) : world :=
  World (page w) (<[key := v]> (entries w)) (readable w) (writable w)
        (writes w ++ [(key, v)]) (pending w) (sent w) (uncaught w).

Definition with_request (r : Request.t) (w : world) : world :=
  World (page w) (entries w) (readable w) (writable w) (writes w)
        (pending w ++ [r]) (sent w ++ [r]) (uncaught w).

Definition with_settled (i : nat) (w : world) : world :=
  World (page w) (entries w) (readable w) (writable w) (writes w)
        (delete i (pending w)) (sent w) (uncaught w).

Definition with_uncaught (e : error) (w : world) : world :=
  World (page w) (entries w) (readable w) (writable w) (writes w)
        (pending w) (sent w) (uncaught w ++ [e]).

(** Handler code: it reads and updates the world and either returns or
    throws.  What was done before a throw stays done. *)
Definition M (A : Type) : Type := world → completion A * world.

#[global] Instance M_ret : MRet M := λ A a w, (Normal a, w).

#[global] Instance M_bind : MBind M := λ A B k m w,
  match m w with
  | (Normal a, w') => k a w'
  | (Throw e, w') => (Throw e, w')
  end.

Definition lift {A : Type} (c : completion A) : M A := λ w, (c, w).

(** [this.data] *)
Definition this_data : M Data.t := λ w, (Normal (page w), w).

(** [this.setData(patch)]: the fields of the patch replace those of
    [this.data], at once. *)
Definition setData (patch : Data.t → Data.t) : M unit :=
  λ w, (Normal tt, with_page patch w).

(** [wx.getStorageSync(key)]: the stored value, the empty string when the
    key holds nothing; throws when the storage layer fails. *)
Definition getStorageSync (key : jsstring) : M value := λ w,
  if readable w then (Normal (default (VStr []) (entries w !! key)), w)
  else (Throw StorageError, w).

(** [wx.setStorageSync(key, v)]: throws when the storage layer fails. *)
Definition setStorageSync (key : jsstring) (v : value) : M unit := λ w,
  if writable w then (Normal tt, with_write key v w)
  else (Throw StorageError, w).

(** [wx.request(r)] returns at once; the request is in flight until the
    platform settles it by calling one of its callbacks. *)
Definition wx_request (r : Request.t) : M unit :=
  λ w, (Normal tt, with_request r w).

(** The text of the reply appended by [fail]. *)
Definition failure_text : jsstring :=
  [0x7F51; 0x7EDC; 0x9519; 0x8BEF; 0xFF0C; 0x8BF7; 0x7A0D; 0x540E;
   0x91CD; 0x8BD5; 0x3002].

(** [data] with the patch [{ messages: [...data.messages, m] }] applied. *)
Definition push (m : message) (d : Data.t) : Data.t :=
  Data.Build (Data.user_id d) (Data.session_id d) (Data.messages d ++ [m])
             (Data.input d).

Definition initial_data : Data.t :=
  Data.Build (VStr []) [] [] [].

(** Lines 13 to 17 of [onLoad], the resolution of the user id.  [rnd] is
    the string [Math.random().toString(36)] would produce if evaluated. *)
Definition resolveUserId (rnd : jsstring) : M value :=
  user_id ← getStorageSync (lit "user_id");
  if negb (ToBoolean user_id) then
    let user_id := VStr (lit "user_" ++ slice 2 rnd) in
    setStorageSync (lit "user_id") user_id;;
    mret user_id
  else mret user_id.

(** [onLoad()].  [uuid] is the string returned by [uuidv4()], imported
    from [utils/uuid]. *)
Definition onLoad (rnd uuid : jsstring) : M unit :=
  user_id ← resolveUserId rnd;
  let session_id := uuid in
  setData (λ d, Data.Build user_id session_id (Data.messages d) (Data.input d)).

(** [onInput(e)], where [value] is [e.detail.value]. *)
Definition onInput (value : jsstring) : M unit :=
  setData (λ d, Data.Build (Data.user_id d) (Data.session_id d)
                           (Data.messages d) value).

(** [sendMsg()] *)
Definition sendMsg : M unit :=
  d ← this_data;
  let input := Data.input d in
  let user_id := Data.user_id d in
  let session_id := Data.session_id d in
  let messages := Data.messages d in
  if negb (ToBoolean (VStr (trim input))) then mret tt
  else
    setData (λ d', Data.Build (Data.user_id d') (Data.session_id d')
                              (messages ++ [Message user (VStr input)]) []);;
    wx_request (Request.Build (lit "http://localhost:8000/chat/qa")
                              (lit "POST") input user_id session_id).

(** The [success] callback of the request. *)
Definition success (res : Response.t) : M unit :=
  answer ← lift (get_answer (Response.data res));
  d ← this_data;
  setData (λ d', Data.Build (Data.user_id d') (Data.session_id d')
                            (Data.messages d ++ [Message assistant answer])
                            (Data.input d')).

(** The [fail] callback of the request. *)
Definition fail : M unit :=
  d ← this_data;
  setData (λ d', Data.Build (Data.user_id d') (Data.session_id d')
                            (Data.messages d
                               ++ [Message assistant (VStr failure_text)])
                            (Data.input d')).

(** How a request in flight can end. *)
Inductive outcome : Type :=
| Responded (res : Response.t)  (* the server answered, with any status *)
| NetworkError                   (* no answer could be obtained *)
| Timeout.                       (* no answer came in time *)

(** The contract of [wx.request]: [success] is called whenever a response
    was received from the server, whatever its status code; [fail] is
    called when none was. *)
Definition callback (o : outcome) : M unit :=
  match o with
  | Responded res => success res
  | NetworkError | Timeout => fail
  end.

(** What the event loop delivers to the page. *)
Inductive event : Type :=
| Load (rnd uuid : jsstring)      (* the view is initialised *)
| Input (value : jsstring)        (* the input field changed *)
| Tap                             (* the send button *)
| Settle (i : nat) (o : outcome). (* the [i]-th request in flight ends *)

Definition handle (ev : event) : M unit :=
  match ev with
  | Load rnd uuid => onLoad rnd uuid
  | Input value => onInput value
  | Tap => sendMsg
  | Settle i o =>
      λ w, match pending w !! i with
           | Some _ => callback o (with_settled i w)
           | None => (Normal tt, w)
           end
  end.

(** One turn of the event loop.  An error that escapes the handler is
    reported by the platform and the page lives on. *)
Definition step (ev : event) (w : world) : world :=
  match handle ev w with
  | (Normal _, w') => w'
  | (Throw e, w') => with_uncaught e w'
  end.

Definition run (evs : list event) (w : world) : world :=
  foldl (λ w ev, step ev w) w evs.

(** The world when the page object has just been created. *)
Definition fresh (store : gmap jsstring value) (r wr : bool) : world :=
  World initial_data store r wr [] [] [] [].

(** The request that [sendMsg] issues for the draft [s] in world [w]. *)
Definition request_for (s : jsstring) (w : world) : Request.t :=
  Request.Build (lit "http://localhost:8000/chat/qa") (lit "POST") s
                (Data.user_id (page w)) (Data.session_id (page w)).

(** ** Vocabulary of the properties *)

(** The outcomes for which the platform calls [fail]. *)
Definition transport_failure (o : outcome) : bool :=
  match o with
  | NetworkError | Timeout => true
  | Responded _ => false
  end.

(** An HTTP status outside 200..299. *)
Definition non_success_status (code : Z) : bool :=
  negb ((200 <=? code)%Z && (code <? 300)%Z).

(** The outcomes a reader would call a failed request: no response, or a
    response with a non-success status. *)
Definition failed_request (o : outcome) : bool :=
  match o with
  | NetworkError | Timeout => true
  | Responded res => non_success_status (Response.statusCode res)
  end.

(** The [answer] string of a response body, when it has one. *)
Definition answer_string (body : value) : option jsstring :=
  match body with
  | VObj m =>
      match m !! lit "answer" with
      | Some (VStr s) => Some s
      | _ => None
      end
  | _ => None
  end.

(** The id that [onLoad] generates from [Math.random().toString(36)]. *)
Definition generated_id (rnd : jsstring) : value :=
  VStr (lit "user_" ++ slice 2 rnd).

(** The storage layer fails during the resolution of the user id: the read
    fails, or the read finds no id and the write fails. *)
Definition storage_fails (w : world) : bool :=
  negb (readable w)
  || (negb (ToBoolean (default (VStr []) (entries w !! lit "user_id")))
      && negb (writable w)).

(** The storage holds a user id that [onLoad] accepts. *)
Definition resolved (w : world) : Prop :=
  ∃ v, entries w !! lit "user_id" = Some v ∧ ToBoolean v = true.

(** ** Concrete worlds and inputs *)

Module Scenario.

(** A device whose storage is empty and healthy, page just created. *)
Definition w0 : world := fresh ∅ true true.

(** The same after a first load. *)
Definition w1 : world := step (Load (lit "0.k3j9x") (lit "s-1")) w0.

(** Three blanks. *)
Definition blanks : jsstring := lit "   ".

(** A draft with blanks around it. *)
Definition draft : jsstring := lit " hi ".

(** The question and the answer of the specification's scenario. *)
Definition pearl_question : jsstring :=
  [0x73CD; 0x73E0; 0x7684; 0x4E3B; 0x8981; 0x6210; 0x5206; 0x662F; 0x4EC0;
   0x4E48; 0xFF1F].

Definition pearl_answer : jsstring := [0x78B3; 0x9178; 0x9499].

Definition pearl_body : gmap jsstring value :=
  {[ lit "answer" := VStr pearl_answer ]}.

Definition pearl_response : Response.t :=
  Response.Build 200 (VObj pearl_body).

(** The page after the draft was typed and sent: one request in flight. *)
Definition w2 : world := step Tap (step (Input draft) w1).

(** A response with status 500 and the body of an error report. *)
Definition server_error : Response.t :=
  Response.Build 500
    (VObj {[ lit "detail" := VStr (lit "Internal Server Error") ]}).

(** A response with status 200 whose JSON body is [null]. *)
Definition null_response : Response.t := Response.Build 200 VNull.

(** A response with status 200 whose JSON body is an empty object. *)
Definition empty_response : Response.t := Response.Build 200 (VObj ∅).

(** Page just created on a device whose storage cannot be read. *)
Definition unreadable : world := fresh ∅ false true.

(** Page just created on a device whose storage is empty and cannot be
    written. *)
Definition unwritable : world := fresh ∅ true false.

End Scenario.

(** ** Vocabulary of the further properties *)

(** The contents of the messages of role [user], in order. *)
Definition user_contents (ms : list message) : list value :=
  omap (λ m, match role m with
             | user => Some (content m)
             | assistant => None
             end) ms.

(** The contents of the messages of role [assistant], in order. *)
Definition assistant_contents (ms : list message) : list value :=
  omap (λ m, match role m with
             | assistant => Some (content m)
             | user => None
             end) ms.

(** The [TypeError]s among the errors that escaped a handler. *)
Definition type_errors (es : list error) : list error :=
  omap (λ e, match e with
             | TypeError => Some e
             | StorageError => None
             end) es.

(** The message that the callback of a settled request appends, if it
    appends one: read off [success] and [fail]. *)
Definition reply_of (o : outcome) : option message :=
  match o with
  | Responded res =>
      match get_answer (Response.data res) with
      | Normal answer => Some (Message assistant answer)
      | Throw _ => None
      end
  | NetworkError | Timeout => Some (Message assistant (VStr failure_text))
  end.

(** The error with which the handler of an event ends, if it throws. *)
Definition thrown (ev : event) (w : world) : option error :=
  match ev with
  | Load _ _ => if storage_fails w then Some StorageError else None
  | Input _ | Tap => None
  | Settle i o =>
      match pending w !! i, o with
      | Some _, Responded res =>
          match Response.data res with
          | VUndefined | VNull => Some TypeError
          | _ => None
          end
      | _, _ => None
      end
  end.

(** The page has a user id that is also the one in storage. *)
Definition identified (v : value) (w : world) : Prop :=
  entries w !! lit "user_id" = Some v
  ∧ ToBoolean v = true
  ∧ Data.user_id (page w) = v.

(** ** Further concrete worlds *)

Module Busy.

(** After a first load two drafts were sent; both requests are in flight. *)
Definition two_in_flight : world :=
  run [Input Scenario.draft; Tap; Input Scenario.pearl_question; Tap]
      Scenario.w1.

(** A response whose answer is the text that [fail] shows. *)
Definition echo_of_failure : Response.t :=
  Response.Build 200 (VObj {[ lit "answer" := VStr failure_text ]}).

(** A device that holds data of its own under another key. *)
Definition with_other_key : world :=
  fresh {[ lit "theme" := VStr (lit "dark") ]} true true.

End Busy.

(** ** Trimming *)

Lemma trimStart_nil s : trimStart s = [] ↔ forallb strippable s = true.
Proof.
  induction s as [|c s IH]; simpl; [done|].
  destruct (strippable c); simpl; [exact IH|]. split; discriminate.
Qed.

Lemma trimStart_strippable s : forallb strippable (trimStart s) = true → trimStart s = [].
Proof.
  induction s as [|c s IH]; simpl; [done|].
  destruct (strippable c) eqn:E; [exact IH|]. simpl. rewrite E. discriminate.
Qed.

Lemma forallb_rev {A} (f : A → bool) l : forallb f (rev l) = forallb f l.
Proof.
  induction l as [|x l IH]; simpl; [done|].
  rewrite forallb_app, IH. simpl. rewrite andb_true_r. apply andb_comm.
Qed.

(** The trimmed form of a string is empty exactly when the string is made
    of strippable code units only. *)
Lemma trim_nil s : trim s = [] ↔ forallb strippable s = true.
Proof.
  unfold trim, trimEnd. split.
  - intros H. apply (f_equal (@rev N)) in H. rewrite rev_involutive in H.
    simpl in H. apply trimStart_nil in H. rewrite forallb_rev in H.
    apply trimStart_nil. by apply trimStart_strippable.
  - intros H. apply trimStart_nil in H. by rewrite H.
Qed.

Example trim_demo :
  trim (lit "  a b " ++ [0x3000]) = lit "a b".
Proof. reflexivity. Qed.

(** ** [sendMsg] *)

Lemma sendMsg_blank w :
  trim (Data.input (page w)) = [] → sendMsg w = (Normal tt, w).
Proof. intros H. unfold sendMsg, mbind, M_bind, this_data. by rewrite H. Qed.

Lemma sendMsg_nonblank w :
  trim (Data.input (page w)) ≠ [] →
  sendMsg w =
    (Normal tt,
     with_request (request_for (Data.input (page w)) w)
       (with_page (λ d, Data.Build (Data.user_id d) (Data.session_id d)
                          (Data.messages d
                             ++ [Message user (VStr (Data.input d))]) [])
          w)).
Proof.
  intros H. unfold sendMsg, mbind, M_bind, this_data.
  destruct (trim (Data.input (page w))) eqn:E; [done|]. reflexivity.
Qed.

(** C2. For a draft made of white space only (the empty draft included),
    [sendMsg] does nothing: it returns normally and the world is the one
    it started from, so the transcript and the draft are unchanged and no
    request was issued.  The same holds when the draft was just typed. *)
Theorem sendMsg_blank_noop (s : jsstring) (w : world) :
  forallb strippable s = true →
  (Data.input (page w) = s → sendMsg w = (Normal tt, w))
  ∧ let w' := step (Input s) w in
    step Tap w' = w'
    ∧ Data.messages (page (step Tap w')) = Data.messages (page w)
    ∧ Data.input (page (step Tap w')) = s
    ∧ sent (step Tap w') = sent w
    ∧ pending (step Tap w') = pending w.
Proof.
  intros Hs. apply trim_nil in Hs. split.
  - intros <-. by apply sendMsg_blank.
  - simpl. assert (E : step Tap (step (Input s) w) = step (Input s) w).
    { unfold step at 1. simpl handle. by rewrite sendMsg_blank. }
    rewrite E. done.
Qed.

Lemma sendMsg_blank_noop_witness :
  step Tap (step (Input Scenario.blanks) Scenario.w1)
  = step (Input Scenario.blanks) Scenario.w1.
Proof.
  apply (sendMsg_blank_noop Scenario.blanks Scenario.w1). reflexivity.
Defined.

Lemma send_after_input s w :
  trim s ≠ [] →
  Data.messages (page (step Tap (step (Input s) w)))
  = Data.messages (page w) ++ [Message user (VStr s)]
  ∧ step Tap (step (Input s) w)
    = with_request (request_for s w)
        (with_page (λ d, Data.Build (Data.user_id d) (Data.session_id d)
                           (Data.messages d ++ [Message user (VStr s)]) [])
           w).
Proof.
  intros Hs.
  assert (Hin : trim (Data.input (page (step (Input s) w))) ≠ []) by exact Hs.
  pose proof (sendMsg_nonblank _ Hin) as E.
  unfold step at 1 3. simpl handle. by rewrite E.
Qed.

(** C1. When the trimmed draft is not empty, [sendMsg] appends one
    message, [{ role: 'user', content: draft }] with the draft as typed,
    at the end of the transcript and empties the draft.  This is the state
    the handler returns with: the request it issued is still in flight,
    nothing has settled yet. *)
Theorem sendMsg_appends_user_message (s : jsstring) (w : world) :
  trim s ≠ [] →
  let w1 := step (Input s) w in
  let w2 := step Tap w1 in
  handle Tap w1 = (Normal tt, w2)
  ∧ Data.messages (page w2)
    = Data.messages (page w) ++ [Message user (VStr s)]
  ∧ Data.input (page w2) = []
  ∧ pending w2 = pending w ++ [request_for s w].
Proof.
  intros Hs w1 w2.
  assert (Hin : trim (Data.input (page w1)) ≠ []) by exact Hs.
  pose proof (sendMsg_nonblank w1 Hin) as E.
  assert (E2 : w2 = snd (sendMsg w1)).
  { unfold w2, step. simpl handle. by rewrite E. }
  rewrite E2. simpl handle. rewrite E. done.
Qed.

Lemma sendMsg_appends_user_message_witness :
  Data.messages (page (step Tap (step (Input Scenario.draft) Scenario.w1)))
  = Data.messages (page Scenario.w1) ++ [Message user (VStr Scenario.draft)].
Proof.
  apply (sendMsg_appends_user_message Scenario.draft Scenario.w1).
  vm_compute. discriminate.
Defined.

(** ** The callbacks *)

Lemma success_eq res w :
  success res w =
    match get_answer (Response.data res) with
    | Normal answer => (Normal tt, with_page (push (Message assistant answer)) w)
    | Throw e => (Throw e, w)
    end.
Proof.
  unfold success, mbind, M_bind, lift, this_data.
  by destruct (get_answer (Response.data res)).
Qed.

Lemma fail_eq w :
  fail w = (Normal tt, with_page (push (Message assistant (VStr failure_text))) w).
Proof. reflexivity. Qed.

(** ** The transcript only grows *)

Lemma onLoad_messages rnd uuid w :
  Data.messages (page (step (Load rnd uuid) w)) = Data.messages (page w).
Proof.
  unfold step, handle, onLoad, resolveUserId, mbind, M_bind, getStorageSync,
    setStorageSync.
  destruct (readable w); [|done].
  destruct (negb _); [|done].
  by destruct (writable w).
Qed.

Lemma step_messages ev w :
  Data.messages (page (step ev w)) = Data.messages (page w)
  ∨ ∃ m, Data.messages (page (step ev w)) = Data.messages (page w) ++ [m].
Proof.
  destruct ev as [rnd uuid|value| |i o].
  - left. apply onLoad_messages.
  - by left.
  - unfold step. simpl handle.
    destruct (trim (Data.input (page w))) eqn:E.
    + left. by rewrite sendMsg_blank.
    + right. rewrite sendMsg_nonblank by (by rewrite E). by eexists.
  - unfold step. simpl handle. destruct (pending w !! i); [|by left].
    destruct o as [res| |]; simpl callback.
    + rewrite success_eq. destruct (get_answer _); [right; by eexists|by left].
    + right. by eexists.
    + right. by eexists.
Qed.

Lemma run_snoc evs ev w : run (evs ++ [ev]) w = step ev (run evs w).
Proof. unfold run. by rewrite foldl_app. Qed.

Lemma run_messages_prefix evs w :
  Data.messages (page w) `prefix_of` Data.messages (page (run evs w)).
Proof.
  induction evs as [|ev evs IH] using rev_ind; [done|].
  rewrite run_snoc. etrans; [exact IH|].
  destruct (step_messages ev (run evs w)) as [->|[m ->]]; [done|].
  by apply prefix_app_r.
Qed.

(** C9. The transcript is append-only.  Each event (a load, an input
    change, a send, a request settling through either callback) leaves
    [messages] as it was or adds one message at its end; over any sequence
    of events the old transcript is a prefix of the new one, so a message
    once at index [i] stays at index [i], unchanged. *)
Theorem messages_append_only (w : world) :
  (∀ ev, Data.messages (page (step ev w)) = Data.messages (page w)
         ∨ ∃ m, Data.messages (page (step ev w))
                = Data.messages (page w) ++ [m])
  ∧ (∀ evs, Data.messages (page w) `prefix_of` Data.messages (page (run evs w)))
  ∧ (∀ evs i m, Data.messages (page w) !! i = Some m →
                Data.messages (page (run evs w)) !! i = Some m).
Proof.
  split; [|split].
  - intros ev. apply step_messages.
  - intros evs. apply run_messages_prefix.
  - intros evs i m Hi. by eapply prefix_lookup_Some, run_messages_prefix.
Qed.

(** ** Replies *)

Lemma get_answer_obj m X :
  m !! lit "answer" = Some X → get_answer (VObj m) = Normal X.
Proof. intros H. simpl. by rewrite H. Qed.

Lemma settle_pending i o w r :
  pending w !! i = Some r →
  handle (Settle i o) w = callback o (with_settled i w).
Proof. intros H. simpl. by rewrite H. Qed.

(** C3. A response whose body is an object with [answer: X] makes the
    [success] callback append exactly one message, [{ role: 'assistant',
    content: X }], at the end of the transcript.  When the request was
    issued by a send of the draft [s], whatever happened in between, the
    reply lands after the user message of that send, which still sits at
    the index where the send put it. *)
Theorem success_appends_answer
    (w : world) (s : jsstring) (evs : list event) (i : nat)
    (res : Response.t) (m : gmap jsstring value) (X : value) :
  trim s ≠ [] →
  Response.data res = VObj m →
  m !! lit "answer" = Some X →
  let w1 := step Tap (step (Input s) w) in
  let w2 := run evs w1 in
  let w3 := step (Settle i (Responded res)) w2 in
  pending w2 !! i = Some (request_for s w) →
  success res w2 = (Normal tt, with_page (push (Message assistant X)) w2)
  ∧ handle (Settle i (Responded res)) w2 = (Normal tt, w3)
  ∧ Data.messages (page w3)
    = Data.messages (page w2) ++ [Message assistant X]
  ∧ Data.messages (page w3) !! length (Data.messages (page w))
    = Some (Message user (VStr s))
  ∧ (length (Data.messages (page w)) < length (Data.messages (page w2)))%nat.
Proof.
  intros Hs Hres HX w1 w2 w3 Hp.
  assert (Hsucc : ∀ w', success res w'
            = (Normal tt, with_page (push (Message assistant X)) w')).
  { intros w'. by rewrite success_eq, Hres, (get_answer_obj m X HX). }
  assert (H3 : handle (Settle i (Responded res)) w2
               = (Normal tt, with_page (push (Message assistant X))
                               (with_settled i w2))).
  { rewrite (settle_pending _ _ _ _ Hp). simpl callback. apply Hsucc. }
  assert (E3 : w3 = with_page (push (Message assistant X)) (with_settled i w2)).
  { unfold w3, step. by rewrite H3. }
  destruct (send_after_input s w Hs) as [E1 _].
  assert (Hu : Data.messages (page w2) !! length (Data.messages (page w))
               = Some (Message user (VStr s))).
  { eapply prefix_lookup_Some; [|apply run_messages_prefix].
    unfold w1. rewrite E1. by rewrite lookup_app_r, Nat.sub_diag. }
  pose proof (lookup_lt_Some _ _ _ Hu) as Hlt.
  split; [apply Hsucc|]. split; [by rewrite H3, E3|].
  rewrite E3. simpl. split; [done|]. split; [|done].
  by rewrite lookup_app_l.
Qed.

Lemma success_appends_answer_witness :
  Data.messages
    (page (run [Input Scenario.pearl_question; Tap;
                Settle 0 (Responded Scenario.pearl_response)] Scenario.w1))
  = [Message user (VStr Scenario.pearl_question);
     Message assistant (VStr Scenario.pearl_answer)]
  ∧ Data.input
      (page (run [Input Scenario.pearl_question; Tap;
                  Settle 0 (Responded Scenario.pearl_response)] Scenario.w1))
    = [].
Proof.
  split; [|reflexivity].
  destruct (success_appends_answer Scenario.w1 Scenario.pearl_question [] 0
              Scenario.pearl_response Scenario.pearl_body
              (VStr Scenario.pearl_answer))
    as (_ & _ & H & _); [vm_compute; discriminate|reflexivity..|].
  exact H.
Defined.

Lemma messages_append_only_witness :
  Data.messages
    (page (run [Input Scenario.draft; Tap; Settle 0 Timeout] Scenario.w2)) !! 0%nat
  = Some (Message user (VStr Scenario.draft)).
Proof.
  apply (messages_append_only Scenario.w2). reflexivity.
Defined.

(** ** Failures *)

Lemma settle_transport_failure i o w r :
  pending w !! i = Some r →
  transport_failure o = true →
  handle (Settle i o) w
  = (Normal tt,
     with_page (push (Message assistant (VStr failure_text)))
       (with_settled i w)).
Proof.
  intros Hp Ho. rewrite (settle_pending _ _ _ _ Hp).
  destruct o; [discriminate|reflexivity..].
Qed.

Lemma sendMsg_returns w : ∃ w', sendMsg w = (Normal tt, w').
Proof.
  destruct (trim (Data.input (page w))) eqn:E.
  - exists w. by apply sendMsg_blank.
  - eexists. apply sendMsg_nonblank. by rewrite E.
Qed.

(** C4, as amended. A network error and a timeout, the outcomes for which
    the platform calls [fail], are handled alike: each appends [{ role:
    'assistant', content: failure_text }].  A response is handed to
    [success] whatever its status: the status is never read, so a
    response with a non-success status is handled exactly as a response
    with the same body and any other status. *)
Theorem failures_handled_uniformly (i : nat) (w : world) (r : Request.t) :
  pending w !! i = Some r →
  (∀ o, transport_failure o = true →
        handle (Settle i o) w
        = (Normal tt,
           with_page (push (Message assistant (VStr failure_text)))
             (with_settled i w)))
  ∧ (∀ res, handle (Settle i (Responded res)) w
            = success res (with_settled i w))
  ∧ (∀ code code' body,
        handle (Settle i (Responded (Response.Build code body))) w
        = handle (Settle i (Responded (Response.Build code' body))) w).
Proof.
  intros Hp. split; [|split].
  - intros o Ho. by eapply settle_transport_failure.
  - intros res. by rewrite (settle_pending _ _ _ _ Hp).
  - intros code code' body. rewrite !(settle_pending _ _ _ _ Hp).
    simpl callback. by rewrite !success_eq.
Qed.

Lemma failures_handled_uniformly_witness :
  handle (Settle 0 NetworkError) Scenario.w2
  = handle (Settle 0 Timeout) Scenario.w2.
Proof.
  destruct (failures_handled_uniformly 0 Scenario.w2
              (request_for Scenario.draft Scenario.w1)) as (H & _);
    [reflexivity|].
  rewrite (H NetworkError), (H Timeout); reflexivity.
Defined.

(** C4 as stated fails: a response with status 500 counts as a failed
    request, yet its reply is not the failure text; the content is the
    [answer] of the error body, here [undefined]. *)
Lemma server_error_not_failure_reply :
  failed_request (Responded Scenario.server_error) = true
  ∧ pending Scenario.w2 !! 0%nat
    = Some (request_for Scenario.draft Scenario.w1)
  ∧ Data.messages
      (page (step (Settle 0 (Responded Scenario.server_error)) Scenario.w2))
    = Data.messages (page Scenario.w2) ++ [Message assistant VUndefined]
  ∧ Data.messages
      (page (step (Settle 0 (Responded Scenario.server_error)) Scenario.w2))
    ≠ Data.messages (page Scenario.w2)
        ++ [Message assistant (VStr failure_text)].
Proof.
  split; [reflexivity|]. split; [reflexivity|]. split; [reflexivity|].
  vm_compute. discriminate.
Qed.

(** C5. A transport failure never surfaces as an error.  [sendMsg] itself
    always returns normally, and when the request later ends in a network
    error or a timeout the [fail] callback returns normally too: it
    appends [{ role: 'assistant', content: failure_text }] at the end of
    the transcript and nothing is added to the uncaught errors. *)
Theorem transport_failure_becomes_message
    (i : nat) (o : outcome) (w : world) (r : Request.t) :
  pending w !! i = Some r →
  transport_failure o = true →
  (∃ w', sendMsg w = (Normal tt, w'))
  ∧ (∃ w', handle (Settle i o) w = (Normal tt, w'))
  ∧ Data.messages (page (step (Settle i o) w))
    = Data.messages (page w) ++ [Message assistant (VStr failure_text)]
  ∧ uncaught (step (Settle i o) w) = uncaught w.
Proof.
  intros Hp Ho. pose proof (settle_transport_failure i o w r Hp Ho) as E.
  split; [apply sendMsg_returns|]. split; [by eexists|].
  unfold step. by rewrite E.
Qed.

Lemma transport_failure_becomes_message_witness :
  Data.messages (page (step (Settle 0 Timeout) Scenario.w2))
  = [Message user (VStr Scenario.draft);
     Message assistant (VStr failure_text)]
  ∧ uncaught (step (Settle 0 Timeout) Scenario.w2) = [].
Proof.
  destruct (transport_failure_becomes_message 0 Timeout Scenario.w2
              (request_for Scenario.draft Scenario.w1))
    as (_ & _ & H1 & H2); [reflexivity..|].
  split; [exact H1|exact H2].
Defined.

(** ** Responses without an answer *)

Lemma answer_string_none_not_string body v :
  answer_string body = None → get_answer body = Normal v → ∀ s, v ≠ VStr s.
Proof.
  intros Hn Hg s ->. destruct body as [| | | | |l|m]; simpl in *; try discriminate.
  destruct (m !! lit "answer") as [[]|]; simpl in *; discriminate || congruence.
Qed.

(** C10, as amended. Take a response whose body has no [answer] string.
    When the body is neither [null] nor [undefined], [success] returns
    normally and appends [{ role: 'assistant', content: body.answer }];
    that content is no string, so it is not the failure text, and it is
    [undefined] when the body is no object or an object without [answer].
    When the body is [null] or [undefined], reading [answer] throws a
    [TypeError] and the world is left as it was. *)
Theorem malformed_response_fails_open (res : Response.t) (w : world) :
  answer_string (Response.data res) = None →
  (Response.data res ≠ VNull → Response.data res ≠ VUndefined →
   ∃ v, success res w
        = (Normal tt, with_page (push (Message assistant v)) w)
        ∧ get_answer (Response.data res) = Normal v
        ∧ (∀ s, v ≠ VStr s)
        ∧ ((∀ m, Response.data res = VObj m → m !! lit "answer" = None) →
           v = VUndefined))
  ∧ (Response.data res = VNull ∨ Response.data res = VUndefined →
     success res w = (Throw TypeError, w)).
Proof.
  intros Hn. split.
  - intros Hnull Hundef. rewrite success_eq.
    destruct (get_answer (Response.data res)) as [v|e] eqn:G.
    + exists v. split; [done|]. split; [done|]. split.
      * by eapply answer_string_none_not_string.
      * intros Hm. destruct (Response.data res) as [| | | | |l|m];
          simpl in G; try congruence.
        rewrite (Hm m eq_refl) in G. simpl in G. congruence.
    + destruct (Response.data res); simpl in G; congruence.
  - intros [E|E]; by rewrite success_eq, E.
Qed.

Lemma malformed_response_fails_open_witness :
  success Scenario.empty_response Scenario.w2
  = (Normal tt, with_page (push (Message assistant VUndefined)) Scenario.w2).
Proof.
  destruct (malformed_response_fails_open Scenario.empty_response Scenario.w2)
    as [H _]; [reflexivity|].
  destruct H as (v & E & G & _); [discriminate..|].
  rewrite E. vm_compute in G. by injection G as <-.
Defined.

(** C10 as stated fails: the body [null] has no [answer] string, and the
    [success] callback throws on it; no message is appended. *)
Lemma null_body_appends_nothing :
  answer_string (Response.data Scenario.null_response) = None
  ∧ pending Scenario.w2 !! 0%nat
    = Some (request_for Scenario.draft Scenario.w1)
  ∧ handle (Settle 0 (Responded Scenario.null_response)) Scenario.w2
    = (Throw TypeError, with_settled 0 Scenario.w2)
  ∧ ¬ (∃ v, Data.messages
              (page (step (Settle 0 (Responded Scenario.null_response))
                          Scenario.w2))
            = Data.messages (page Scenario.w2) ++ [Message assistant v]).
Proof.
  split; [reflexivity|]. split; [reflexivity|]. split; [reflexivity|].
  intros [v H]. vm_compute in H. discriminate.
Qed.

(** ** Requests *)

Lemma step_sent ev w : ev ≠ Tap → sent (step ev w) = sent w.
Proof.
  intros Hev. destruct ev as [rnd uuid|value| |i o]; [| |done|].
  - unfold step, handle, onLoad, resolveUserId, mbind, M_bind, getStorageSync,
      setStorageSync.
    destruct (readable w); [|done]. destruct (negb _); [|done].
    by destruct (writable w).
  - done.
  - unfold step. simpl handle. destruct (pending w !! i); [|done].
    destruct o as [res| |]; simpl callback; [|done..].
    rewrite success_eq. by destruct (get_answer _).
Qed.

Lemma run_sent evs w : Forall (λ ev, ev ≠ Tap) evs → sent (run evs w) = sent w.
Proof.
  induction evs as [|ev evs IH] using rev_ind; [done|].
  intros [H1 H2]%Forall_app. rewrite run_snoc, step_sent.
  - by apply IH.
  - by inversion H2.
Qed.

(** C8. A send with a non-blank draft calls [wx.request] exactly once,
    for the chat endpoint, with [{ question, user_id, session_id }] where
    the question is the draft as it was before it was cleared and the ids
    are those of the page.  No retry follows: whatever comes after that
    is not another send (loads, input changes, requests settling with any
    outcome) issues no request. *)
Theorem sendMsg_issues_one_request (s : jsstring) (w : world) :
  trim s ≠ [] →
  let w' := step Tap (step (Input s) w) in
  sent w'
  = sent w ++ [Request.Build (lit "http://localhost:8000/chat/qa")
                 (lit "POST") s (Data.user_id (page w))
                 (Data.session_id (page w))]
  ∧ (∀ evs, Forall (λ ev, ev ≠ Tap) evs → sent (run evs w') = sent w').
Proof.
  intros Hs w'. split.
  - unfold w'. by rewrite (proj2 (send_after_input s w Hs)).
  - intros evs Hevs. by apply run_sent.
Qed.

Lemma sendMsg_issues_one_request_witness :
  sent (run [Settle 0 Timeout; Input Scenario.blanks] Scenario.w2)
  = [request_for Scenario.draft Scenario.w1].
Proof.
  destruct (sendMsg_issues_one_request Scenario.draft Scenario.w1) as [H1 H2];
    [vm_compute; discriminate|].
  fold Scenario.w2 in H1, H2. rewrite H2; [exact H1|].
  repeat constructor; discriminate.
Defined.

(** ** The user id *)

Lemma generated_id_truthy rnd : ToBoolean (generated_id rnd) = true.
Proof. reflexivity. Qed.

Lemma resolveUserId_stored rnd v w :
  readable w = true →
  entries w !! lit "user_id" = Some v → ToBoolean v = true →
  resolveUserId rnd w = (Normal v, w).
Proof.
  intros Hr Hv Ht. unfold resolveUserId, mbind, M_bind, getStorageSync.
  rewrite Hr, Hv. change (default (VStr []) (Some v)) with v. by rewrite Ht.
Qed.

Lemma resolveUserId_missing rnd w :
  readable w = true → writable w = true →
  ToBoolean (default (VStr []) (entries w !! lit "user_id")) = false →
  resolveUserId rnd w
  = (Normal (generated_id rnd),
     with_write (lit "user_id") (generated_id rnd) w).
Proof.
  intros Hr Hw Hf.
  unfold resolveUserId, mbind, M_bind, getStorageSync, setStorageSync.
  rewrite Hr, Hf. cbn [negb]. cbv beta. by rewrite Hw.
Qed.

Lemma onLoad_eq rnd uuid w :
  onLoad rnd uuid w =
    match resolveUserId rnd w with
    | (Normal v, w') =>
        (Normal tt,
         with_page (λ d, Data.Build v uuid (Data.messages d) (Data.input d)) w')
    | (Throw e, w') => (Throw e, w')
    end.
Proof.
  unfold onLoad. unfold mbind at 1, M_bind at 1.
  by destruct (resolveUserId rnd w) as [[v|e] w'].
Qed.

Lemma with_write_resolved rnd w :
  resolved (with_write (lit "user_id") (generated_id rnd) w).
Proof.
  exists (generated_id rnd). split; [|done]. simpl. apply lookup_insert_eq.
Qed.

(** With storage in order a resolution returns an id that is stored when
    it returns, and writes at most once. *)
Lemma resolveUserId_intact rnd w :
  readable w = true → writable w = true →
  ∃ v w', resolveUserId rnd w = (Normal v, w')
          ∧ entries w' !! lit "user_id" = Some v ∧ ToBoolean v = true
          ∧ readable w' = true ∧ writable w' = true
          ∧ (w' = w ∨ w' = with_write (lit "user_id") v w).
Proof.
  intros Hr Hw.
  destruct (ToBoolean (default (VStr []) (entries w !! lit "user_id"))) eqn:Ht.
  - destruct (entries w !! lit "user_id") as [v|] eqn:Hv; [|discriminate].
    exists v, w. rewrite (resolveUserId_stored rnd v w Hr Hv Ht). auto 10.
  - exists (generated_id rnd), (with_write (lit "user_id") (generated_id rnd) w).
    rewrite (resolveUserId_missing rnd w Hr Hw Ht).
    split; [done|]. split; [apply lookup_insert_eq|]. auto 10.
Qed.

Lemma step_flags ev w :
  readable (step ev w) = readable w ∧ writable (step ev w) = writable w.
Proof.
  destruct ev as [rnd uuid|value| |i o].
  - unfold step, handle, onLoad, resolveUserId, mbind, M_bind, getStorageSync,
      setStorageSync.
    destruct (readable w) eqn:Hr; [|by simpl].
    destruct (negb _); [|by simpl].
    by destruct (writable w) eqn:Hw; simpl.
  - done.
  - unfold step. simpl handle. destruct (sendMsg_returns w) as [w' E].
    rewrite E. revert E. unfold sendMsg, mbind, M_bind, this_data.
    destruct (negb _); intros [= <-]; done.
  - unfold step. simpl handle. destruct (pending w !! i); [|done].
    destruct o as [res| |]; simpl callback; [|done..].
    rewrite success_eq. by destruct (get_answer _).
Qed.

Lemma step_storage ev w :
  readable w = true → writable w = true →
  (writes (step ev w) = writes w ∧ entries (step ev w) = entries w
   ∧ (resolved w ∨ ∀ rnd uuid, ev ≠ Load rnd uuid))
  ∨ (¬ resolved w ∧ resolved (step ev w)
     ∧ ∃ kv, writes (step ev w) = writes w ++ [kv]).
Proof.
  intros Hr Hw. destruct ev as [rnd uuid|value| |i o].
  - unfold step. simpl handle. rewrite onLoad_eq.
    destruct (ToBoolean (default (VStr []) (entries w !! lit "user_id"))) eqn:Ht.
    + destruct (entries w !! lit "user_id") as [v|] eqn:Hv; [|discriminate].
      rewrite (resolveUserId_stored rnd v w Hr Hv Ht). left.
      split; [done|]. split; [done|]. left. by exists v.
    + rewrite (resolveUserId_missing rnd w Hr Hw Ht). right. split.
      * intros (v & Hv & Hv'). rewrite Hv in Ht. simpl in Ht. congruence.
      * split; [apply with_write_resolved|]. by eexists.
  - left. split; [done|]. split; [done|]. by right.
  - left. unfold step. simpl handle. destruct (sendMsg_returns w) as [w' E].
    rewrite E. revert E. unfold sendMsg, mbind, M_bind, this_data.
    destruct (negb _); intros [= <-]; split; try done; split; try done; by right.
  - left. unfold step. simpl handle.
    destruct (pending w !! i); [|split; [done|split; [done|by right]]].
    destruct o as [res| |]; simpl callback;
      [|split; [done|split; [done|by right]]..].
    rewrite success_eq.
    destruct (get_answer _); (split; [done|split; [done|by right]]).
Qed.

Lemma step_resolved ev w :
  readable w = true → writable w = true → resolved w →
  writes (step ev w) = writes w ∧ resolved (step ev w).
Proof.
  intros Hr Hw Hres.
  destruct (step_storage ev w Hr Hw) as [(E1 & E2 & _)|(Hn & _)]; [|done].
  split; [done|]. unfold resolved. by rewrite E2.
Qed.

Lemma run_resolved evs w :
  readable w = true → writable w = true → resolved w →
  writes (run evs w) = writes w.
Proof.
  revert w. induction evs as [|ev evs IH]; intros w Hr Hw Hres; [done|].
  simpl. destruct (step_flags ev w) as [Fr Fw].
  destruct (step_resolved ev w Hr Hw Hres) as [E Hres'].
  rewrite IH; [done|congruence..|done].
Qed.

Lemma run_writes evs w :
  readable w = true → writable w = true →
  (length (writes (run evs w)) ≤ length (writes w) + 1)%nat.
Proof.
  revert w. induction evs as [|ev evs IH]; intros w Hr Hw; [simpl; lia|].
  simpl. destruct (step_flags ev w) as [Fr Fw].
  destruct (step_storage ev w Hr Hw) as [(E1 & _)|(_ & Hres & kv & E)].
  - rewrite <- E1. apply IH; congruence.
  - rewrite run_resolved; [|congruence..|done].
    rewrite E, length_app. simpl. lia.
Qed.

(** C6. With the storage in order, resolving the user id is idempotent.
    A stored id (a value the test [!user_id] accepts) is returned as it is
    and the world, storage included, is untouched.  When the key holds
    nothing, the generated id is written, once.  Two resolutions in
    sequence return the same id and the second one changes nothing; two
    loads leave the same [user_id] in [data].  Over any sequence of
    events the storage is written at most once. *)
Theorem resolveUserId_idempotent (w : world) :
  readable w = true → writable w = true →
  (∀ rnd v, entries w !! lit "user_id" = Some v → ToBoolean v = true →
            resolveUserId rnd w = (Normal v, w))
  ∧ (∀ rnd, entries w !! lit "user_id" = None →
            resolveUserId rnd w
            = (Normal (generated_id rnd),
               with_write (lit "user_id") (generated_id rnd) w))
  ∧ (∀ rnd rnd', ∃ v w',
        resolveUserId rnd w = (Normal v, w')
        ∧ resolveUserId rnd' w' = (Normal v, w')
        ∧ (length (writes w') ≤ length (writes w) + 1)%nat)
  ∧ (∀ rnd uuid rnd' uuid',
        Data.user_id (page (step (Load rnd' uuid') (step (Load rnd uuid) w)))
        = Data.user_id (page (step (Load rnd uuid) w)))
  ∧ (∀ evs, (length (writes (run evs w)) ≤ length (writes w) + 1)%nat).
Proof.
  intros Hr Hw. split; [|split; [|split; [|split]]].
  - intros rnd v Hv Ht. by apply resolveUserId_stored.
  - intros rnd Hv. apply resolveUserId_missing; [done..|]. by rewrite Hv.
  - intros rnd rnd'.
    destruct (resolveUserId_intact rnd w Hr Hw)
      as (v & w' & E & Hv & Ht & Hr' & Hw' & Hww).
    exists v, w'. split; [done|]. split; [by apply resolveUserId_stored|].
    destruct Hww as [->| ->]; simpl; rewrite ?length_app; simpl; lia.
  - intros rnd uuid rnd' uuid'.
    destruct (resolveUserId_intact rnd w Hr Hw)
      as (v & w' & E & Hv & Ht & Hr' & Hw' & Hww).
    assert (E1 : step (Load rnd uuid) w
                 = with_page (λ d, Data.Build v uuid (Data.messages d)
                                     (Data.input d)) w').
    { unfold step. simpl handle. by rewrite onLoad_eq, E. }
    rewrite E1. unfold step. simpl handle. rewrite onLoad_eq.
    rewrite (resolveUserId_stored rnd' v); done.
  - intros evs. by apply run_writes.
Qed.

Lemma resolveUserId_idempotent_witness :
  ∃ w', resolveUserId (lit "0.k3j9x") Scenario.w0
        = (Normal (VStr (lit "user_k3j9x")), w')
        ∧ resolveUserId (lit "0.zzz") w' = (Normal (VStr (lit "user_k3j9x")), w')
        ∧ length (writes w') = 1%nat.
Proof.
  destruct (resolveUserId_idempotent Scenario.w0) as (_ & H & _);
    [reflexivity..|].
  eexists. split; [apply H; reflexivity|]. split; reflexivity.
Defined.

(** ** Storage failures *)

Lemma resolveUserId_fails rnd w :
  storage_fails w = true → resolveUserId rnd w = (Throw StorageError, w).
Proof.
  unfold storage_fails, resolveUserId, mbind, M_bind, getStorageSync,
    setStorageSync.
  destruct (readable w); simpl; [|done].
  destruct (negb _); simpl; [|done].
  by destruct (writable w).
Qed.

(** C7, as amended. A failure of the storage layer during the resolution
    of the user id is not caught.  When the read fails, or finds no id
    and the write fails, [onLoad] ends by throwing the storage error
    before it reaches [setData]: [data] stays as it was, so neither an id
    kept in memory nor a session id is installed, and the error escapes
    the handler.  In every other case [onLoad] returns normally and
    [data.user_id] holds an id. *)
Theorem storage_failure_aborts_onLoad (rnd uuid : jsstring) (w : world) :
  (storage_fails w = true →
     onLoad rnd uuid w = (Throw StorageError, w)
     ∧ page (step (Load rnd uuid) w) = page w
     ∧ uncaught (step (Load rnd uuid) w) = uncaught w ++ [StorageError])
  ∧ (storage_fails w = false →
     ∃ w', onLoad rnd uuid w = (Normal tt, w')
           ∧ ToBoolean (Data.user_id (page w')) = true
           ∧ Data.session_id (page w') = uuid).
Proof.
  split.
  - intros Hf.
    assert (E : onLoad rnd uuid w = (Throw StorageError, w)).
    { by rewrite onLoad_eq, (resolveUserId_fails rnd w Hf). }
    split; [done|]. unfold step. simpl handle. by rewrite E.
  - unfold storage_fails. intros Hf. rewrite onLoad_eq.
    apply orb_false_elim in Hf as [Hr Hf]. apply negb_false_iff in Hr.
    destruct (ToBoolean (default (VStr []) (entries w !! lit "user_id"))) eqn:Ht.
    + destruct (entries w !! lit "user_id") as [v|] eqn:Hv; [|discriminate].
      rewrite (resolveUserId_stored rnd v w Hr Hv Ht). by eexists.
    + simpl in Hf. apply negb_false_iff in Hf.
      rewrite (resolveUserId_missing rnd w Hr Hf Ht). by eexists.
Qed.

Lemma storage_failure_aborts_onLoad_witness :
  onLoad (lit "0.k3j9x") (lit "s-1") Scenario.unreadable
  = (Throw StorageError, Scenario.unreadable).
Proof.
  apply (storage_failure_aborts_onLoad (lit "0.k3j9x") (lit "s-1")
           Scenario.unreadable).
  reflexivity.
Defined.

(** C7 as stated fails: on a device whose storage is empty and refuses
    the write, [onLoad] does not return normally; it throws, and [data]
    holds no user id afterwards, in memory or otherwise. *)
Lemma unwritable_storage_aborts_load :
  storage_fails Scenario.unwritable = true
  ∧ ¬ (∃ w', onLoad (lit "0.k3j9x") (lit "s-1") Scenario.unwritable
             = (Normal tt, w'))
  ∧ Data.user_id
      (page (step (Load (lit "0.k3j9x") (lit "s-1")) Scenario.unwritable))
    = VStr []
  ∧ uncaught (step (Load (lit "0.k3j9x") (lit "s-1")) Scenario.unwritable)
    = [StorageError].
Proof.
  split; [reflexivity|]. split; [|split; reflexivity].
  intros [w' H]. vm_compute in H. discriminate.
Qed.

(** ** Further properties of the handlers *)

Lemma step_Settle i o w r :
  pending w !! i = Some r →
  step (Settle i o) w =
    match o with
    | Responded res =>
        match get_answer (Response.data res) with
        | Normal answer =>
            with_page (push (Message assistant answer)) (with_settled i w)
        | Throw e => with_uncaught e (with_settled i w)
        end
    | NetworkError | Timeout =>
        with_page (push (Message assistant (VStr failure_text)))
          (with_settled i w)
    end.
Proof.
  intros Hp. unfold step. rewrite (settle_pending _ _ _ _ Hp).
  destruct o as [res| |]; simpl callback; [|done..].
  rewrite success_eq. by destruct (get_answer _).
Qed.

Lemma step_Settle_none i o w : pending w !! i = None → step (Settle i o) w = w.
Proof. intros Hp. unfold step. simpl. by rewrite Hp. Qed.

Lemma step_Tap w :
  step Tap w =
    match trim (Data.input (page w)) with
    | [] => w
    | _ :: _ =>
        with_request (request_for (Data.input (page w)) w)
          (with_page (λ d, Data.Build (Data.user_id d) (Data.session_id d)
                             (Data.messages d
                                ++ [Message user (VStr (Data.input d))]) [])
             w)
    end.
Proof.
  unfold step. simpl handle. destruct (trim (Data.input (page w))) eqn:E.
  - by rewrite sendMsg_blank.
  - rewrite sendMsg_nonblank; [done|]. by rewrite E.
Qed.

Lemma step_Load rnd uuid w :
  step (Load rnd uuid) w =
    match resolveUserId rnd w with
    | (Normal v, w') =>
        with_page (λ d, Data.Build v uuid (Data.messages d) (Data.input d)) w'
    | (Throw e, w') => with_uncaught e w'
    end.
Proof.
  unfold step. simpl handle. rewrite onLoad_eq.
  by destruct (resolveUserId rnd w) as [[v|e] w'].
Qed.

Lemma resolveUserId_cases rnd w :
  (storage_fails w = true ∧ resolveUserId rnd w = (Throw StorageError, w))
  ∨ (storage_fails w = false
     ∧ ((∃ v, entries w !! lit "user_id" = Some v ∧ ToBoolean v = true
              ∧ resolveUserId rnd w = (Normal v, w))
        ∨ (¬ resolved w
           ∧ resolveUserId rnd w
             = (Normal (generated_id rnd),
                with_write (lit "user_id") (generated_id rnd) w)))).
Proof.
  destruct (storage_fails w) eqn:Hf.
  - left. split; [done|]. by apply resolveUserId_fails.
  - right. split; [done|]. unfold storage_fails in Hf.
    apply orb_false_elim in Hf as [Hr Hf]. apply negb_false_iff in Hr.
    destruct (ToBoolean (default (VStr []) (entries w !! lit "user_id"))) eqn:Ht.
    + destruct (entries w !! lit "user_id") as [v|] eqn:Hv; [|discriminate].
      left. exists v. split; [done|]. split; [done|].
      by apply resolveUserId_stored.
    + simpl in Hf. apply negb_false_iff in Hf. right. split.
      * intros (v & Hv & Hv'). rewrite Hv in Ht. simpl in Ht. congruence.
      * by apply resolveUserId_missing.
Qed.

(** X1. Which handlers throw, and when.  [onInput] and [sendMsg] never
    throw.  [onLoad] throws exactly when the storage layer fails, and then
    a [StorageError].  The callback of a settled request throws exactly
    when the request was answered with a body that is [null] or
    [undefined], and then a [TypeError].  The error, when there is one, is
    the only thing added to the uncaught errors. *)
Theorem handlers_throw_exactly (ev : event) (w : world) :
  fst (handle ev w)
  = match thrown ev w with Some e => Throw e | None => Normal tt end
  ∧ uncaught (step ev w) = uncaught w ++ option_list (thrown ev w).
Proof.
  destruct ev as [rnd uuid|value| |i o].
  - rewrite step_Load. simpl handle. rewrite onLoad_eq. simpl thrown.
    destruct (resolveUserId_cases rnd w)
      as [[Hf E]|[Hf [(v & _ & _ & E)|[_ E]]]]; rewrite Hf, E; simpl;
      by rewrite ?app_nil_r.
  - simpl. by rewrite app_nil_r.
  - destruct (sendMsg_returns w) as [w' E]. simpl handle. rewrite E.
    split; [done|]. simpl. rewrite app_nil_r, step_Tap.
    by destruct (trim _).
  - simpl thrown. destruct (pending w !! i) as [r|] eqn:Hp.
    + rewrite (step_Settle i o w r Hp), (settle_pending _ _ _ _ Hp).
      destruct o as [res| |]; simpl callback;
        [|by simpl; rewrite app_nil_r..].
      rewrite success_eq.
      destruct (Response.data res); simpl; by rewrite ?app_nil_r.
    + rewrite (step_Settle_none i o w Hp). simpl. rewrite Hp.
      by rewrite app_nil_r.
Qed.

(** X2. A second tap on the send button without new input sends nothing:
    whatever the draft was, the first [sendMsg] leaves an empty draft or
    found a blank one, so the second call is a no-op. *)
Theorem double_tap_sends_once (w : world) :
  step Tap (step Tap w) = step Tap w.
Proof.
  rewrite (step_Tap w). destruct (trim (Data.input (page w))) eqn:E.
  - by rewrite step_Tap, E.
  - by rewrite step_Tap.
Qed.

(** X3. Typing and the arrival of a reply commute: a callback touches
    [messages] only and [onInput] touches [input] only, so a draft typed
    while a request is in flight survives the reply, and the page ends in
    the same state whichever of the two came first. *)
Theorem input_commutes_with_reply (s : jsstring) (i : nat) (o : outcome) (w : world) :
  step (Input s) (step (Settle i o) w) = step (Settle i o) (step (Input s) w)
  ∧ Data.input (page (step (Settle i o) w)) = Data.input (page w).
Proof.
  destruct (pending w !! i) as [r|] eqn:Hp.
  - assert (Hp' : pending (step (Input s) w) !! i = Some r) by exact Hp.
    rewrite (step_Settle i o w r Hp), (step_Settle i o _ r Hp').
    destruct o as [res| |]; [|done..].
    by destruct (get_answer (Response.data res)).
  - assert (Hp' : pending (step (Input s) w) !! i = None) by exact Hp.
    by rewrite (step_Settle_none i o w Hp), (step_Settle_none i o _ Hp').
Qed.

(** ** Requests, replies and the transcript *)

Lemma step_Load_frame rnd uuid w :
  Data.messages (page (step (Load rnd uuid) w)) = Data.messages (page w)
  ∧ Data.input (page (step (Load rnd uuid) w)) = Data.input (page w)
  ∧ sent (step (Load rnd uuid) w) = sent w
  ∧ pending (step (Load rnd uuid) w) = pending w
  ∧ type_errors (uncaught (step (Load rnd uuid) w)) = type_errors (uncaught w).
Proof.
  rewrite step_Load.
  destruct (resolveUserId_cases rnd w)
    as [[Hf E]|[Hf [(v & _ & _ & E)|[_ E]]]]; rewrite E; simpl;
    repeat split; try done.
  unfold type_errors. rewrite omap_app. simpl. by rewrite app_nil_r.
Qed.

Lemma user_contents_snoc ms m :
  user_contents (ms ++ [m])
  = user_contents ms
    ++ match role m with user => [content m] | assistant => [] end.
Proof. unfold user_contents. rewrite omap_app. simpl. by destruct (role m). Qed.

Lemma assistant_contents_snoc ms m :
  assistant_contents (ms ++ [m])
  = assistant_contents ms
    ++ match role m with assistant => [content m] | user => [] end.
Proof.
  unfold assistant_contents. rewrite omap_app. simpl. by destruct (role m).
Qed.

Lemma step_questions ev w :
  user_contents (Data.messages (page w))
  = map (λ r, VStr (Request.question r)) (sent w) →
  user_contents (Data.messages (page (step ev w)))
  = map (λ r, VStr (Request.question r)) (sent (step ev w)).
Proof.
  intros H. destruct ev as [rnd uuid|value| |i o].
  - destruct (step_Load_frame rnd uuid w) as (-> & _ & -> & _). exact H.
  - exact H.
  - rewrite step_Tap. destruct (trim _); [exact H|]. simpl.
    by rewrite user_contents_snoc, map_app, H.
  - rewrite (step_sent (Settle i o) w) by done.
    destruct (pending w !! i) as [r|] eqn:Hp.
    + rewrite (step_Settle i o w r Hp). destruct o as [res| |]; simpl;
        [destruct (get_answer _); simpl|..];
        rewrite ?user_contents_snoc; simpl; by rewrite ?app_nil_r.
    + by rewrite (step_Settle_none i o w Hp).
Qed.

(** X4. On a page that started fresh, the user messages of the transcript
    and the requests issued correspond one to one and in order: the
    content of the [k]-th user message is the question of the [k]-th call
    of [wx.request].  No user message is shown without its request going
    out, and no request goes out without its message. *)
Theorem user_messages_match_requests
    (store : gmap jsstring value) (r wr : bool) (evs : list event) :
  user_contents (Data.messages (page (run evs (fresh store r wr))))
  = map (λ q, VStr (Request.question q)) (sent (run evs (fresh store r wr))).
Proof.
  induction evs as [|ev evs IH] using rev_ind; [done|].
  rewrite run_snoc. by apply step_questions.
Qed.

Lemma get_answer_throws v e : get_answer v = Throw e → e = TypeError.
Proof. destruct v; simpl; congruence. Qed.

Lemma step_accounted ev w :
  length (sent w)
  = (length (pending w) + length (assistant_contents (Data.messages (page w)))
     + length (type_errors (uncaught w)))%nat →
  length (sent (step ev w))
  = (length (pending (step ev w))
     + length (assistant_contents (Data.messages (page (step ev w))))
     + length (type_errors (uncaught (step ev w))))%nat.
Proof.
  intros H. destruct ev as [rnd uuid|value| |i o].
  - destruct (step_Load_frame rnd uuid w) as (-> & _ & -> & -> & ->). exact H.
  - exact H.
  - rewrite step_Tap. destruct (trim _); [exact H|]. simpl.
    rewrite assistant_contents_snoc, !length_app. simpl. lia.
  - rewrite (step_sent (Settle i o) w) by done.
    destruct (pending w !! i) as [r|] eqn:Hp.
    + pose proof (lookup_lt_Some _ _ _ Hp) as Hlt.
      assert (Hd : S (length (delete i (pending w))) = length (pending w)).
      { rewrite length_delete by eauto. lia. }
      rewrite (step_Settle i o w r Hp). destruct o as [res| |]; simpl;
        [destruct (get_answer _) as [a|e] eqn:G;
         [|rewrite (get_answer_throws _ _ G)]; simpl|..];
        unfold type_errors in *;
        rewrite ?assistant_contents_snoc, ?omap_app, ?length_app; simpl;
        lia.
    + by rewrite (step_Settle_none i o w Hp).
Qed.

(** X5. On a page that started fresh every request is accounted for, and
    once: the number of requests issued equals the number still in flight
    plus the number of assistant messages in the transcript plus the
    number of [TypeError]s that escaped a callback.  So a request gets at
    most one reply, and no assistant message appears without a request. *)
Theorem requests_accounted_for
    (store : gmap jsstring value) (r wr : bool) (evs : list event) :
  let w := run evs (fresh store r wr) in
  length (sent w)
  = (length (pending w) + length (assistant_contents (Data.messages (page w)))
     + length (type_errors (uncaught w)))%nat.
Proof.
  induction evs as [|ev evs IH] using rev_ind; [done|].
  simpl. rewrite run_snoc. by apply step_accounted.
Qed.

Lemma step_Settle_reply i o w r :
  pending w !! i = Some r →
  Data.messages (page (step (Settle i o) w))
  = Data.messages (page w) ++ option_list (reply_of o)
  ∧ pending (step (Settle i o) w) = delete i (pending w).
Proof.
  intros Hp. rewrite (step_Settle i o w r Hp).
  destruct o as [res| |]; simpl; [|done..].
  destruct (get_answer _); simpl; by rewrite ?app_nil_r.
Qed.

Lemma delete_commute {A} (l : list A) (i j : nat) :
  (i < j)%nat → delete (pred j) (delete i l) = delete i (delete j l).
Proof.
  revert i j. induction l as [|x l IH]; intros [|i] [|j] H; simpl;
    try done; try lia.
  destruct j as [|j]; [lia|]. simpl. f_equal. apply (IH i (S j)). lia.
Qed.

(** X6. Replies are appended in the order in which the requests settle,
    not in the order in which they were sent.  With two requests in
    flight, the one at index [i] sent before the one at index [j]: when
    the later request settles first its reply comes first in the
    transcript, and when the earlier one settles first (the later one is
    then at index [j - 1]) its reply comes first.  Either way both
    requests have left the requests in flight. *)
Theorem replies_in_arrival_order
    (i j : nat) (oi oj : outcome) (w : world) (ri rj : Request.t) :
  pending w !! i = Some ri →
  pending w !! j = Some rj →
  (i < j)%nat →
  let late_first := run [Settle j oj; Settle i oi] w in
  let early_first := run [Settle i oi; Settle (pred j) oj] w in
  Data.messages (page late_first)
  = Data.messages (page w) ++ option_list (reply_of oj)
      ++ option_list (reply_of oi)
  ∧ Data.messages (page early_first)
    = Data.messages (page w) ++ option_list (reply_of oi)
        ++ option_list (reply_of oj)
  ∧ pending late_first = delete i (delete j (pending w))
  ∧ pending early_first = delete i (delete j (pending w)).
Proof.
  intros Hi Hj Hlt late_first early_first.
  destruct (step_Settle_reply j oj w rj Hj) as [Mj Pj].
  destruct (step_Settle_reply i oi w ri Hi) as [Mi Pi].
  assert (Hi' : pending (step (Settle j oj) w) !! i = Some ri).
  { rewrite Pj, list_lookup_delete_lt; done. }
  assert (Hj' : pending (step (Settle i oi) w) !! pred j = Some rj).
  { rewrite Pi, list_lookup_delete_ge by lia.
    by replace (S (pred j)) with j by lia. }
  destruct (step_Settle_reply i oi _ ri Hi') as [Mi' Pi'].
  destruct (step_Settle_reply (pred j) oj _ rj Hj') as [Mj' Pj'].
  unfold late_first, early_first, run. simpl.
  rewrite Mi', Mj, Mj', Mi, Pi', Pj, Pj', Pi, <- !app_assoc.
  split; [done|]. split; [done|]. split; [done|].
  by apply delete_commute.
Qed.

Lemma replies_in_arrival_order_witness :
  Data.messages
    (page (run [Settle 1 (Responded Scenario.pearl_response); Settle 0 Timeout]
               Busy.two_in_flight))
  = [Message user (VStr Scenario.draft);
     Message user (VStr Scenario.pearl_question);
     Message assistant (VStr Scenario.pearl_answer);
     Message assistant (VStr failure_text)].
Proof.
  destruct (replies_in_arrival_order 0 1 Timeout
              (Responded Scenario.pearl_response) Busy.two_in_flight
              (request_for Scenario.draft Scenario.w1)
              (request_for Scenario.pearl_question Scenario.w1))
    as (H & _); [reflexivity|reflexivity|lia|].
  exact H.
Defined.



(** ** Storage and identity *)

Lemma step_store ev w :
  (entries (step ev w) = entries w ∧ writes (step ev w) = writes w)
  ∨ ∃ rnd, entries (step ev w) = <[lit "user_id" := generated_id rnd]> (entries w)
           ∧ writes (step ev w)
             = writes w ++ [(lit "user_id", generated_id rnd)].
Proof.
  destruct ev as [rnd uuid|value| |i o].
  - rewrite step_Load.
    destruct (resolveUserId_cases rnd w)
      as [[Hf E]|[Hf [(v & _ & _ & E)|[_ E]]]]; rewrite E; simpl;
      [by left..|]. right. by exists rnd.
  - by left.
  - left. rewrite step_Tap. by destruct (trim _).
  - left. destruct (pending w !! i) as [r|] eqn:Hp.
    + rewrite (step_Settle i o w r Hp). destruct o as [res| |]; [|done..].
      by destruct (get_answer _).
    + by rewrite (step_Settle_none i o w Hp).
Qed.

(** X8. The page stores nothing but the user id.  Over any sequence of
    events what is stored under every other key stays as it was, and all
    that was written is the key [user_id] with an id the page generated:
    the session id, the draft and the transcript never reach storage. *)
Theorem only_user_id_is_stored (evs : list event) (w : world) :
  (∀ k, k ≠ lit "user_id" → entries (run evs w) !! k = entries w !! k)
  ∧ ∃ rnds, writes (run evs w)
            = writes w ++ map (λ rnd, (lit "user_id", generated_id rnd)) rnds.
Proof.
  induction evs as [|ev evs [IH1 [rnds IH2]]] using rev_ind.
  - split; [done|]. exists []. simpl. by rewrite app_nil_r.
  - rewrite run_snoc.
    destruct (step_store ev (run evs w)) as [[-> ->]|(rnd & -> & ->)].
    + split; [done|]. by exists rnds.
    + split.
      * intros k Hk. rewrite lookup_insert_ne by done. by apply IH1.
      * exists (rnds ++ [rnd]). by rewrite IH2, map_app, app_assoc.
Qed.

Lemma only_user_id_is_stored_witness :
  entries (run [Load (lit "0.k3j9x") (lit "s-1"); Input Scenario.draft; Tap]
               Busy.with_other_key) !! lit "theme"
  = Some (VStr (lit "dark")).
Proof.
  destruct (only_user_id_is_stored
              [Load (lit "0.k3j9x") (lit "s-1"); Input Scenario.draft; Tap]
              Busy.with_other_key) as [H _].
  rewrite H; [reflexivity|]. vm_compute. discriminate.
Defined.

Lemma step_identified v ev w :
  identified v w →
  identified v (step ev w)
  ∧ ∃ rs, sent (step ev w) = sent w ++ rs
          ∧ Forall (λ q, Request.user_id q = v) rs.
Proof.
  intros (Hv & Ht & Hu). destruct ev as [rnd uuid|value| |i o].
  - destruct (step_Load_frame rnd uuid w) as (_ & _ & Hs & _).
    split; [|exists []; by rewrite Hs, app_nil_r].
    rewrite step_Load.
    destruct (resolveUserId_cases rnd w)
      as [[Hf E]|[Hf [(v' & Hv' & _ & E)|[Hn E]]]]; rewrite E.
    + done.
    + rewrite Hv in Hv'. by injection Hv' as <-.
    + destruct Hn. by exists v.
  - split; [done|]. exists []. by rewrite app_nil_r.
  - rewrite step_Tap. destruct (trim _).
    + split; [done|]. exists []. by rewrite app_nil_r.
    + split; [done|]. eexists. split; [done|]. by constructor.
  - rewrite (step_sent (Settle i o) w) by done.
    split; [|exists []; by rewrite app_nil_r].
    destruct (pending w !! i) as [r|] eqn:Hp.
    + rewrite (step_Settle i o w r Hp). destruct o as [res| |]; [|done..].
      by destruct (get_answer _).
    + by rewrite (step_Settle_none i o w Hp).
Qed.

Lemma load_identifies rnd uuid w w' :
  handle (Load rnd uuid) w = (Normal tt, w') →
  identified (Data.user_id (page w')) w'.
Proof.
  simpl handle. rewrite onLoad_eq.
  destruct (resolveUserId_cases rnd w)
    as [[Hf E]|[Hf [(v & Hv & Ht & E)|[_ E]]]]; rewrite E;
    intros [= <-]; [done|].
  split; [apply lookup_insert_eq|done].
Qed.

(** X9. Once [onLoad] has returned normally the user id is settled for
    good.  The id in [data] is truthy and is the one in storage, and over
    any later events, further loads included, both stay what they are;
    every request issued from then on carries that id. *)
Theorem user_id_settled_after_load
    (rnd uuid : jsstring) (w w' : world) (evs : list event) :
  handle (Load rnd uuid) w = (Normal tt, w') →
  let v := Data.user_id (page w') in
  ToBoolean v = true
  ∧ Data.user_id (page (run evs w')) = v
  ∧ entries (run evs w') !! lit "user_id" = Some v
  ∧ ∃ rs, sent (run evs w') = sent w' ++ rs
          ∧ Forall (λ q, Request.user_id q = v) rs.
Proof.
  intros H v. pose proof (load_identifies rnd uuid w w' H) as Hid. fold v in Hid.
  assert (A : identified v (run evs w')
              ∧ ∃ rs, sent (run evs w') = sent w' ++ rs
                      ∧ Forall (λ q, Request.user_id q = v) rs).
  { induction evs as [|ev evs [IH (rs & Hs & Hrs)]] using rev_ind.
    - split; [done|]. exists []. by rewrite app_nil_r.
    - rewrite run_snoc.
      destruct (step_identified v ev _ IH) as [Hid' (rs' & Hs' & Hrs')].
      split; [done|]. exists (rs ++ rs').
      split; [by rewrite Hs', Hs, app_assoc|by apply Forall_app]. }
  destruct A as [(Hv & Ht & Hu) Hs]. done.
Qed.

Lemma user_id_settled_after_load_witness :
  Data.user_id
    (page (run [Load (lit "0.zzz") (lit "s-2"); Input Scenario.draft; Tap]
               Scenario.w1))
  = VStr (lit "user_k3j9x").
Proof.
  destruct (user_id_settled_after_load (lit "0.k3j9x") (lit "s-1")
              Scenario.w0 Scenario.w1
              [Load (lit "0.zzz") (lit "s-2"); Input Scenario.draft; Tap])
    as (_ & H & _); [reflexivity|].
  exact H.
Defined.

(** X10. [sendMsg] does not wait for an identity.  On a page just
    created, before [onLoad] has run or after it was aborted by a storage
    failure, a non-blank draft is sent all the same, and the request
    carries the initial, empty [user_id] and [session_id]. *)
Theorem send_without_identity
    (store : gmap jsstring value) (r wr : bool) (rnd uuid s : jsstring) :
  trim s ≠ [] →
  sent (run [Input s; Tap] (fresh store r wr))
  = [Request.Build (lit "http://localhost:8000/chat/qa") (lit "POST") s
       (VStr []) []]
  ∧ (storage_fails (fresh store r wr) = true →
     sent (run [Load rnd uuid; Input s; Tap] (fresh store r wr))
     = [Request.Build (lit "http://localhost:8000/chat/qa") (lit "POST") s
          (VStr []) []]).
Proof.
  intros Hs. unfold run. simpl foldl. split.
  - by rewrite (proj2 (send_after_input s _ Hs)).
  - intros Hf. rewrite (proj2 (send_after_input s _ Hs)).
    by rewrite step_Load, (resolveUserId_fails rnd _ Hf).
Qed.

Lemma send_without_identity_witness :
  sent (run [Load (lit "0.k3j9x") (lit "s-1"); Input Scenario.draft; Tap]
            Scenario.unwritable)
  = [Request.Build (lit "http://localhost:8000/chat/qa") (lit "POST")
       Scenario.draft (VStr []) []].
Proof.
  destruct (send_without_identity ∅ true false (lit "0.k3j9x") (lit "s-1")
              Scenario.draft) as [_ H]; [vm_compute; discriminate|].
  apply H. reflexivity.
Defined.

(** X11. The failure is reported in band.  A response whose [answer] is
    the text that [fail] shows leaves the page in exactly the state a
    network error or a timeout leaves it in: nothing in [data] tells a
    failed request from such a reply. *)
Theorem failure_reported_in_band
    (i : nat) (o : outcome) (res : Response.t) (m : gmap jsstring value)
    (w : world) :
  transport_failure o = true →
  Response.data res = VObj m →
  m !! lit "answer" = Some (VStr failure_text) →
  step (Settle i (Responded res)) w = step (Settle i o) w.
Proof.
  intros Ho Hres Hm. destruct (pending w !! i) as [r|] eqn:Hp.
  - rewrite !(step_Settle i _ w r Hp), Hres, (get_answer_obj m _ Hm).
    by destruct o.
  - by rewrite !(step_Settle_none i _ w Hp).
Qed.

Lemma failure_reported_in_band_witness :
  step (Settle 0 (Responded Busy.echo_of_failure)) Scenario.w2
  = step (Settle 0 Timeout) Scenario.w2.
Proof.
  apply (failure_reported_in_band 0 Timeout Busy.echo_of_failure
           {[ lit "answer" := VStr failure_text ]} Scenario.w2);
    reflexivity.
Defined.

(** X12. The generated id is the prefix [user_] followed by the random
    string without its first two code units, whatever those are.  When
    the random string has at most two code units (the rendering of the
    number 0 is one) nothing is left of it: on a device with working
    storage and no id, the load stores and installs the bare prefix, and
    that id is kept by every later load like any other. *)
Theorem short_random_string_gives_bare_prefix
    (rnd uuid rnd' uuid' : jsstring) (w : world) :
  (length rnd ≤ 2)%nat →
  readable w = true → writable w = true →
  entries w !! lit "user_id" = None →
  let w' := step (Load rnd uuid) w in
  Data.user_id (page w') = VStr (lit "user_")
  ∧ entries w' !! lit "user_id" = Some (VStr (lit "user_"))
  ∧ Data.user_id (page (step (Load rnd' uuid') w')) = VStr (lit "user_").
Proof.
  intros Hlen Hr Hw Hv w'.
  assert (Hg : generated_id rnd = VStr (lit "user_")).
  { unfold generated_id, slice. rewrite drop_ge by done. by rewrite app_nil_r. }
  assert (E : w' = with_page (λ d, Data.Build (VStr (lit "user_")) uuid
                                     (Data.messages d) (Data.input d))
                     (with_write (lit "user_id") (VStr (lit "user_")) w)).
  { unfold w'. rewrite step_Load, resolveUserId_missing, Hg; [done..|].
    by rewrite Hv. }
  assert (Hs : entries w' !! lit "user_id" = Some (VStr (lit "user_"))).
  { rewrite E. simpl. apply lookup_insert_eq. }
  split; [by rewrite E|]. split; [done|].
  rewrite step_Load, (resolveUserId_stored rnd' (VStr (lit "user_")) w');
    [done| by rewrite E |done|done].
Qed.

Lemma short_random_string_gives_bare_prefix_witness :
  Data.user_id (page (step (Load (lit "0") (lit "s-1")) Scenario.w0))
  = VStr (lit "user_").
Proof.
  apply (short_random_string_gives_bare_prefix (lit "0") (lit "s-1")
           (lit "0.zzz") (lit "s-2") Scenario.w0);
    [simpl; lia|reflexivity..].
Defined.

(** ** What goes out *)

Lemma step_session uuid ev w :
  (∀ rnd' uuid', ev ≠ Load rnd' uuid') →
  Data.session_id (page w) = uuid →
  Data.session_id (page (step ev w)) = uuid
  ∧ ∃ rs, sent (step ev w) = sent w ++ rs
          ∧ Forall (λ q, Request.session_id q = uuid) rs.
Proof.
  intros Hev Hu. destruct ev as [rnd' uuid'|value| |i o].
  - by destruct (Hev rnd' uuid').
  - split; [done|]. exists []. by rewrite app_nil_r.
  - rewrite step_Tap. destruct (trim _).
    + split; [done|]. exists []. by rewrite app_nil_r.
    + split; [done|]. eexists. split; [done|]. by constructor.
  - rewrite (step_sent (Settle i o) w) by done.
    split; [|exists []; by rewrite app_nil_r].
    destruct (pending w !! i) as [r|] eqn:Hp.
    + rewrite (step_Settle i o w r Hp). destruct o as [res| |]; [|done..].
      by destruct (get_answer _).
    + by rewrite (step_Settle_none i o w Hp).
Qed.

(** X13. A load that returns normally installs the session id it was
    given, and until the next load nothing changes it: input changes,
    sends and replies leave it alone, and every request issued in between
    carries it. *)
Theorem session_id_lasts_until_next_load
    (rnd uuid : jsstring) (w w' : world) (evs : list event) :
  handle (Load rnd uuid) w = (Normal tt, w') →
  Forall (λ ev, ∀ rnd' uuid', ev ≠ Load rnd' uuid') evs →
  Data.session_id (page (run evs w')) = uuid
  ∧ ∃ rs, sent (run evs w') = sent w' ++ rs
          ∧ Forall (λ q, Request.session_id q = uuid) rs.
Proof.
  intros H Hevs.
  assert (H0 : Data.session_id (page w') = uuid).
  { revert H. simpl handle. rewrite onLoad_eq.
    destruct (resolveUserId rnd w) as [[v|e] w'']; by intros [= <-]. }
  induction evs as [|ev evs IH] using rev_ind.
  - split; [done|]. exists []. by rewrite app_nil_r.
  - apply Forall_app in Hevs as [Hevs Hev]. inversion_clear Hev as [|? ? Hev' _].
    destruct (IH Hevs) as (Hu & rs & Hs & Hrs). rewrite run_snoc.
    destruct (step_session uuid ev _ Hev' Hu) as (Hu' & rs' & Hs' & Hrs').
    split; [done|]. exists (rs ++ rs').
    split; [by rewrite Hs', Hs, app_assoc|by apply Forall_app].
Qed.

Lemma session_id_lasts_until_next_load_witness :
  Data.session_id
    (page (run [Input Scenario.draft; Tap; Settle 0 Timeout] Scenario.w1))
  = lit "s-1".
Proof.
  destruct (session_id_lasts_until_next_load (lit "0.k3j9x") (lit "s-1")
              Scenario.w0 Scenario.w1
              [Input Scenario.draft; Tap; Settle 0 Timeout])
    as (H & _); [reflexivity| |exact H].
  repeat constructor; discriminate.
Defined.

Lemma step_well_formed ev w :
  Forall (λ q, Request.url q = lit "http://localhost:8000/chat/qa"
               ∧ Request.method q = lit "POST"
               ∧ trim (Request.question q) ≠ []) (sent w) →
  Forall (λ q, Request.url q = lit "http://localhost:8000/chat/qa"
               ∧ Request.method q = lit "POST"
               ∧ trim (Request.question q) ≠ []) (sent (step ev w)).
Proof.
  intros H. destruct ev as [rnd uuid|value| |i o];
    [by rewrite step_sent..| |by rewrite step_sent].
  rewrite step_Tap. destruct (trim (Data.input (page w))) eqn:E; [done|].
  simpl. apply Forall_app. split; [done|]. constructor; [|done].
  simpl. by rewrite E.
Qed.

(** X14. On a page that started fresh, every request that goes out is a
    [POST] to the chat endpoint whose question is not blank: a question
    that trims to the empty string never reaches the backend. *)
Theorem no_blank_question_goes_out
    (store : gmap jsstring value) (r wr : bool) (evs : list event) :
  Forall (λ q, Request.url q = lit "http://localhost:8000/chat/qa"
               ∧ Request.method q = lit "POST"
               ∧ trim (Request.question q) ≠ [])
         (sent (run evs (fresh store r wr))).
Proof.
  induction evs as [|ev evs IH] using rev_ind; [by constructor|].
  rewrite run_snoc. by apply step_well_formed.
Qed.
